(** * The transaction-handler chain of ledger (src/chain.cc)

    [chain_xact_handlers] takes the report, a base handler and the flag
    [handle_individual_xacts], and returns the head of a chain of
    transaction handlers.  Every handler class of filters.h is built
    around the handler it forwards to, so [new X(handler, ...)] puts [X]
    in front of the chain built so far: the transactions enter at the
    head, which is the handler created last, and leave at the base
    handler.

    The development has three parts: the data the function reads and
    builds, the function itself written in a small command language
    that threads the report (passed by reference) and the local variable
    [handler], and the properties of the chain it returns. *)

From Stdlib Require Import ZArith List String Bool Lia.
Import ListNotations.

Local Open Scope string_scope.
Local Open Scope Z_scope.
Local Open Scope list_scope.

(** ** The report and its options *)

(** The scope an expression is evaluated in, [scope_t *].  The only
    scope this function installs is the report it was given. *)
Inductive scope_ptr : Type :=
| null_scope
| this_report
| other_scope (id : N).

(** [expr_t]: the text of a value expression and its context. *)
Record expr_t : Type := mk_expr {
  text : string;
  context : scope_ptr
}.

Definition set_context (e : expr_t) (scope : scope_ptr) : expr_t :=
  {| text := text e; context := scope |}.

(** One option handler of the report: what [HANDLED(name)] and the
    accessors [.value.to_long()], [.str()] and [.expr] of
    [HANDLER(name)] give. *)
Record option_t : Type := mk_option {
  handled : bool;
  to_long : Z;
  str : string;
  expr : expr_t
}.

(** The options [chain_xact_handlers] looks at, by their names in
    report.h. *)
Inductive option_name : Type :=
| head_ | tail_ | display_ | amount_ | only_ | sort_ | sort_entries_
| revalued | total_ | revalued_only | collapse | subtotal | dow | by_payee
| period_ | invert | related | related_all | anon | limit_
| comm_as_payee | code_as_payee.

Definition option_name_eqb (a b : option_name) : bool :=
  match a, b with
  | head_, head_ | tail_, tail_ | display_, display_ | amount_, amount_
  | only_, only_ | sort_, sort_ | sort_entries_, sort_entries_
  | revalued, revalued | total_, total_ | revalued_only, revalued_only
  | collapse, collapse | subtotal, subtotal | dow, dow | by_payee, by_payee
  | period_, period_ | invert, invert | related, related
  | related_all, related_all | anon, anon | limit_, limit_
  | comm_as_payee, comm_as_payee | code_as_payee, code_as_payee => true
  | _, _ => false
  end.

(** [report.session], a reference to the session object. *)
Inductive session_t : Type :=
| session_ref (id : N).

(** Modelled from the spec: the value of [report.what_to_keep()], whose
    type is declared in a header that is not part of the sources at
    hand.  The spec knows two policies, keeping the transaction and
    keeping the whole entry when one of its transactions matches. *)
Inductive keep_details_t : Type :=
| keep_xact
| keep_entry.

Record report_t : Type := mk_report {
  HANDLER : option_name -> option_t;
  session : session_t;
  what_to_keep : keep_details_t
}.

Definition HANDLED (report : report_t) (name : option_name) : bool :=
  handled (HANDLER report name).

(** ** Handlers *)

(** [item_predicate<xact_t>(text, what_to_keep)] *)
Record item_predicate : Type := mk_item_predicate {
  predicate : string;
  keep : keep_details_t
}.

(** The handler classes the function instantiates, each with the
    constructor arguments that follow the forwarding handler. *)
Inductive stage : Type :=
| truncate_entries (head_count tail_count : Z)
| filter_xacts (pred : item_predicate)
| calc_xacts (amount_expr : expr_t)
| sort_entries (sort_order : string)
| sort_xacts (sort_order : string)
| changed_value_xacts (total_expr : expr_t) (changed_values_only : bool)
| collapse_xacts (sess : session_t)
| subtotal_xacts
| dow_xacts
| by_payee_xacts
| interval_xacts (period : string)
| invert_xacts
| related_xacts (also_matching : bool)
| anonymize_xacts
| set_comm_as_payee
| set_code_as_payee.

(** [xact_handler_ptr]: a handler built elsewhere (the formatter the
    caller passes as base, say), or one of the stages above in front of
    the handler it forwards to. *)
Inductive xact_handler_ptr : Type :=
| external (name : string)
| new (st : stage) (handler : xact_handler_ptr).

(** ** The command language of the function body

    The body reads and writes two things: the report, which it received
    by reference, and its local variable [handler]. *)

Record frame : Type := mk_frame {
  report : report_t;
  handler : xact_handler_ptr
}.

Inductive result (A : Type) : Type :=
| returned (a : A)
| assertion_failed.

Arguments returned {A} a.
Arguments assertion_failed {A}.

Definition stmt : Type := frame -> result frame.

Definition skip : stmt := fun f => returned f.

Definition seq (s1 s2 : stmt) : stmt :=
  fun f => match s1 f with
           | returned f' => s2 f'
           | assertion_failed => assertion_failed
           end.

Notation "s1 ;; s2" := (seq s1 s2) (at level 61, right associativity).

Definition IFELSE (cond : report_t -> bool) (s1 s2 : stmt) : stmt :=
  fun f => if cond (report f) then s1 f else s2 f.

Definition IF (cond : report_t -> bool) (s : stmt) : stmt :=
  IFELSE cond s skip.

(** [handler.reset(new X(handler, args))], the arguments read from the
    report as it is at that point. *)
Definition reset (X : report_t -> stage) : stmt :=
  fun f => returned {| report := report f;
                       handler := new (X (report f)) (handler f) |}.

Definition assert (cond : report_t -> bool) : stmt :=
  fun f => if cond (report f) then returned f else assertion_failed.

(** [report.HANDLER(name).expr.set_context(&report)] *)
Definition set_expr_context (name : option_name) (r : report_t) : report_t :=
  {| HANDLER := fun n =>
       if option_name_eqb n name
       then {| handled := handled (HANDLER r n);
               to_long := to_long (HANDLER r n);
               str := str (HANDLER r n);
               expr := set_context (expr (HANDLER r n)) this_report |}
       else HANDLER r n;
     session := session r;
     what_to_keep := what_to_keep r |}.

Definition bind_context (name : option_name) : stmt :=
  fun f => returned {| report := set_expr_context name (report f);
                       handler := handler f |}.

(** ** chain_xact_handlers *)

(** The block under [if (handle_individual_xacts)]. *)
Definition individual_xacts : stmt :=
  IF (fun report => HANDLED report head_ || HANDLED report tail_)
     (reset (fun report =>
               truncate_entries (to_long (HANDLER report head_))
                                (to_long (HANDLER report tail_)))) ;;
  IF (fun report => HANDLED report display_)
     (reset (fun report =>
               filter_xacts (mk_item_predicate (str (HANDLER report display_))
                                               (what_to_keep report)))) ;;
  assert (fun report => HANDLED report amount_) ;;
  bind_context amount_ ;;
  reset (fun report => calc_xacts (expr (HANDLER report amount_))) ;;
  IF (fun report => HANDLED report only_)
     (reset (fun report =>
               filter_xacts (mk_item_predicate (str (HANDLER report only_))
                                               (what_to_keep report)))) ;;
  IF (fun report => HANDLED report sort_)
     (IFELSE (fun report => HANDLED report sort_entries_)
        (reset (fun report => sort_entries (str (HANDLER report sort_))))
        (reset (fun report => sort_xacts (str (HANDLER report sort_))))) ;;
  IF (fun report => HANDLED report revalued)
     (reset (fun report =>
               changed_value_xacts (expr (HANDLER report total_))
                                   (HANDLED report revalued_only))) ;;
  IF (fun report => HANDLED report collapse)
     (reset (fun report => collapse_xacts (session report))) ;;
  IF (fun report => HANDLED report subtotal)
     (reset (fun _ => subtotal_xacts)) ;;
  IFELSE (fun report => HANDLED report dow)
     (reset (fun _ => dow_xacts))
     (IF (fun report => HANDLED report by_payee)
         (reset (fun _ => by_payee_xacts))) ;;
  IF (fun report => HANDLED report period_)
     (reset (fun report => interval_xacts (str (HANDLER report period_))) ;;
      reset (fun _ => sort_xacts "d")).

(** The whole body.  The [DEBUG] line under the limit option writes to
    the log only, and the budget and forecast handlers are inside
    [#if 0]: neither is part of what the function does. *)
Definition chain_xact_handlers_body (handle_individual_xacts : bool) : stmt :=
  IF (fun _ => handle_individual_xacts) individual_xacts ;;
  IF (fun report => HANDLED report invert)
     (reset (fun _ => invert_xacts)) ;;
  IF (fun report => HANDLED report related)
     (reset (fun report => related_xacts (HANDLED report related_all))) ;;
  IF (fun report => HANDLED report anon)
     (reset (fun _ => anonymize_xacts)) ;;
  IF (fun report => HANDLED report limit_)
     (reset (fun report =>
               filter_xacts (mk_item_predicate (str (HANDLER report limit_))
                                               (what_to_keep report)))) ;;
  IFELSE (fun report => HANDLED report comm_as_payee)
     (reset (fun _ => set_comm_as_payee))
     (IF (fun report => HANDLED report code_as_payee)
         (reset (fun _ => set_code_as_payee))).

(** The function: [handler] starts as [base_handler]; what comes back
    is the report as the body left it and the value of [handler]. *)
Definition chain_xact_handlers (report : report_t)
    (base_handler : xact_handler_ptr) (handle_individual_xacts : bool)
  : result (report_t * xact_handler_ptr) :=
  match chain_xact_handlers_body handle_individual_xacts
          {| report := report; handler := base_handler |} with
  | returned (mk_frame report' handler) => returned (report', handler)
  | assertion_failed => assertion_failed
  end.

(** ** Reading a chain *)

(** The stages of a chain from its head down to the handler built
    elsewhere: the order in which a transaction given to the head
    passes through them. *)
Fixpoint stages (h : xact_handler_ptr) : list stage :=
  match h with
  | external _ => []
  | new st h' => st :: stages h'
  end.

(** Wiring a list of stages onto a chain, the first of the list first:
    each one is put in front of what was assembled before it. *)
Definition wire (base : xact_handler_ptr) (wired : list stage)
  : xact_handler_ptr :=
  fold_left (fun chain st => new st chain) wired base.

(** ** The wiring order in the words of the specification

    "Start with chain := base.  For each optional stage, in a fixed
    precedence order, if its enabling option is present, construct the
    stage wrapping chain and reassign chain := newStage." *)

Definition when (enabled : bool) (st : stage) : list stage :=
  if enabled then [st] else [].

Definition display_filter (r : report_t) : stage :=
  filter_xacts (mk_item_predicate (str (HANDLER r display_)) (what_to_keep r)).

Definition only_filter (r : report_t) : stage :=
  filter_xacts (mk_item_predicate (str (HANDLER r only_)) (what_to_keep r)).

Definition limit_filter (r : report_t) : stage :=
  filter_xacts (mk_item_predicate (str (HANDLER r limit_)) (what_to_keep r)).

Definition truncation (r : report_t) : stage :=
  truncate_entries (to_long (HANDLER r head_)) (to_long (HANDLER r tail_)).

Definition calculator (r : report_t) : stage :=
  calc_xacts (set_context (expr (HANDLER r amount_)) this_report).

Definition sorter (r : report_t) : stage :=
  if HANDLED r sort_entries_
  then sort_entries (str (HANDLER r sort_))
  else sort_xacts (str (HANDLER r sort_)).

Definition revaluation (r : report_t) : stage :=
  changed_value_xacts (expr (HANDLER r total_)) (HANDLED r revalued_only).

Definition grouping (r : report_t) : list stage :=
  if HANDLED r dow then [dow_xacts]
  else if HANDLED r by_payee then [by_payee_xacts]
  else [].

Definition interval_grouping (r : report_t) : list stage :=
  if HANDLED r period_
  then [interval_xacts (str (HANDLER r period_)); sort_xacts "d"]
  else [].

Definition payee_substitution (r : report_t) : list stage :=
  if HANDLED r comm_as_payee then [set_comm_as_payee]
  else if HANDLED r code_as_payee then [set_code_as_payee]
  else [].

(** Steps 2 to 10, wired in individual-transaction mode only. *)
Definition before_calculator (r : report_t) : list stage :=
  when (HANDLED r head_ || HANDLED r tail_) (truncation r)
  ++ when (HANDLED r display_) (display_filter r).

Definition before_interval (r : report_t) : list stage :=
  when (HANDLED r only_) (only_filter r)
  ++ when (HANDLED r sort_) (sorter r)
  ++ when (HANDLED r revalued) (revaluation r)
  ++ when (HANDLED r collapse) (collapse_xacts (session r))
  ++ when (HANDLED r subtotal) subtotal_xacts
  ++ grouping r.

Definition after_calculator (r : report_t) : list stage :=
  before_interval r ++ interval_grouping r.

Definition individual_stages (r : report_t) : list stage :=
  before_calculator r ++ [calculator r] ++ after_calculator r.

(** Steps 12 to 16, wired in both modes. *)
Definition before_limit (r : report_t) : list stage :=
  when (HANDLED r invert) invert_xacts
  ++ when (HANDLED r related) (related_xacts (HANDLED r related_all))
  ++ when (HANDLED r anon) anonymize_xacts.

Definition common_stages (r : report_t) : list stage :=
  before_limit r
  ++ when (HANDLED r limit_) (limit_filter r)
  ++ payee_substitution r.

Definition wiring_order (r : report_t) (handle_individual_xacts : bool)
  : list stage :=
  (if handle_individual_xacts then individual_stages r else [])
  ++ common_stages r.

(** The builder of the specification: it fails when the amount
    expression is missing in individual-transaction mode, and wires the
    enabled stages in order otherwise. *)
Definition build (options : report_t) (base : xact_handler_ptr)
    (handle_individual_xacts : bool) : result (report_t * xact_handler_ptr) :=
  if handle_individual_xacts && negb (HANDLED options amount_)
  then assertion_failed
  else returned
         (if handle_individual_xacts
          then set_expr_context amount_ options else options,
          wire base (wiring_order options handle_individual_xacts)).

(** ** Execution order *)

Definition stage_eq_dec (a b : stage) : {a = b} + {a <> b}.
Proof.
  repeat decide equality.
Defined.

Definition stage_eqb (a b : stage) : bool :=
  if stage_eq_dec a b then true else false.

Definition is_calc (st : stage) : bool :=
  match st with calc_xacts _ => true | _ => false end.

Definition is_interval (st : stage) : bool :=
  match st with interval_xacts _ => true | _ => false end.

Definition is_sort (st : stage) : bool :=
  match st with sort_entries _ | sort_xacts _ => true | _ => false end.

Definition is_filter (st : stage) : bool :=
  match st with filter_xacts _ => true | _ => false end.

Definition is_subtotal (st : stage) : bool :=
  match st with subtotal_xacts => true | _ => false end.

Definition is_dow (st : stage) : bool :=
  match st with dow_xacts => true | _ => false end.

Definition is_by_payee (st : stage) : bool :=
  match st with by_payee_xacts => true | _ => false end.

(** The classes of steps 2 to 10.  [filter_xacts] is not among them:
    the class also serves the limit filter of step 15. *)
Definition individual_class (st : stage) : bool :=
  match st with
  | truncate_entries _ _ | calc_xacts _ | sort_entries _ | sort_xacts _
  | changed_value_xacts _ _ | collapse_xacts _ | subtotal_xacts
  | dow_xacts | by_payee_xacts | interval_xacts _ => true
  | _ => false
  end.

(** In the execution order [l], some stage of kind [A] runs before some
    stage of kind [B]. *)
Fixpoint runs_before (A B : stage -> bool) (l : list stage) : bool :=
  match l with
  | [] => false
  | st :: l' => (A st && existsb B l') || runs_before A B l'
  end.

(** The stage that receives what the first stage of kind [A] emits. *)
Fixpoint next_after (A : stage -> bool) (l : list stage) : option stage :=
  match l with
  | [] => None
  | st :: l' => if A st then hd_error l' else next_after A l'
  end.

(** The stages of [chain] that lie in front of [base], head first. *)
Definition in_front_of (base chain : xact_handler_ptr) : list stage :=
  firstn (List.length (stages chain) - List.length (stages base))%nat
         (stages chain).

(** The chain a call returned, if it returned. *)
Definition returned_chain (res : result (report_t * xact_handler_ptr))
  : option xact_handler_ptr :=
  match res with
  | returned (_, chain) => Some chain
  | assertion_failed => None
  end.

(** ** Transactions through a chain *)

(** Modelled from the spec: a transaction, with its owning entry, its
    account, its amount and the running total the calculator writes.
    The transaction type is declared outside the sources at hand. *)
Record xact_t : Type := mk_xact {
  entry : N;
  account : string;
  amount : Z;
  total : Z
}.

(** Modelled from the spec: the collaborators a chain consumes.  The
    expression evaluator is an opaque callable that gives a boolean for
    a predicate and a value for an amount expression; the stages whose
    code is in filters.h and that the spec does not pin down to a
    function are taken as given stream transformers. *)
Class evaluator : Type := {
  matches : item_predicate -> xact_t -> bool;
  value_of : expr_t -> xact_t -> Z;
  other_stage : stage -> list xact_t -> list xact_t
}.

(** Modelled from the spec: the calculator stage of filters.h.  "Add
    t's amount to the register, write the register's current value into
    t's computed-total field, forward t." *)
Fixpoint running_total (value : xact_t -> Z) (register : Z)
    (xs : list xact_t) : list xact_t :=
  match xs with
  | [] => []
  | x :: xs' =>
      let register' := register + value x in
      {| entry := entry x; account := account x; amount := amount x;
         total := register' |} :: running_total value register' xs'
  end.

(** Modelled from the spec: what a stage emits for the whole stream it
    accepts.  A filter forwards a transaction unchanged iff the
    predicate holds; the calculator starts with an empty register. *)
Definition stage_stream {E : evaluator} (st : stage) (input : list xact_t)
  : list xact_t :=
  match st with
  | filter_xacts p => filter (matches p) input
  | calc_xacts e => running_total (value_of e) 0 input
  | _ => other_stage st input
  end.

(** Stages in execution order: each one's output is the next one's
    input. *)
Definition stream {E : evaluator} (sts : list stage) (input : list xact_t)
  : list xact_t :=
  fold_left (fun s st => stage_stream st s) sts input.

(** What the handler at the end of the chain receives when [input] is
    given to the head. *)
Definition deliver {E : evaluator} (chain : xact_handler_ptr)
    (input : list xact_t) : list xact_t :=
  stream (stages chain) input.

(** ** Sample reports *)

Definition absent : option_t :=
  {| handled := false; to_long := 0; str := EmptyString;
     expr := mk_expr EmptyString null_scope |}.

Definition present (s : string) : option_t :=
  {| handled := true; to_long := 0; str := s; expr := mk_expr s null_scope |}.

Definition no_options : report_t :=
  {| HANDLER := fun _ => absent;
     session := session_ref 0;
     what_to_keep := keep_xact |}.

Definition set_option (name : option_name) (o : option_t) (r : report_t)
  : report_t :=
  {| HANDLER := fun n => if option_name_eqb n name then o else HANDLER r n;
     session := session r;
     what_to_keep := what_to_keep r |}.

(** An evaluator for the samples: the amount expression gives the
    transaction's amount, a predicate [account =~ /NAME/] holds of the
    transactions of account NAME, and the remaining stages forward what
    they get. *)
Definition sample_evaluator : evaluator :=
  {| matches := fun p x =>
       String.eqb (predicate p)
                  (String.append "account =~ /" (String.append (account x) "/"));
     value_of := fun _ x => amount x;
     other_stage := fun _ input => input |}.

Definition format_xacts : xact_handler_ptr := external "format_xacts".

(** The end-to-end scenario of the specification: the amount expression
    and a display predicate on account A; entries E1 (A: 10, B: -10)
    and E2 (A: 5, C: -5). *)
Definition display_sample : report_t :=
  set_option amount_ (present "amount")
    (set_option display_ (present "account =~ /A/") no_options).

Definition display_sample_chain : xact_handler_ptr :=
  new (calc_xacts (mk_expr "amount" this_report))
    (new (filter_xacts (mk_item_predicate "account =~ /A/" keep_xact))
       format_xacts).

Definition sample_journal : list xact_t :=
  [ mk_xact 1 "A" 10 0; mk_xact 1 "B" (-10) 0;
    mk_xact 2 "A" 5 0; mk_xact 2 "C" (-5) 0 ].

(** A period together with a sort option. *)
Definition period_sample : report_t :=
  set_option amount_ (present "amount")
    (set_option sort_ (present "-amount")
       (set_option period_ (present "monthly") no_options)).

Definition period_sample_stages : list stage :=
  [ sort_xacts "d"; interval_xacts "monthly"; sort_xacts "-amount";
    calc_xacts (mk_expr "amount" this_report) ].

(** A limit predicate with two more of the stages of both modes. *)
Definition limit_sample : report_t :=
  set_option limit_ (present "account =~ /A/")
    (set_option invert (present EmptyString)
       (set_option comm_as_payee (present EmptyString) no_options)).

Definition limit_sample_stages : list stage :=
  [ set_comm_as_payee;
    filter_xacts (mk_item_predicate "account =~ /A/" keep_xact);
    invert_xacts ].

(** Subtotals and day-of-week grouping requested together. *)
Definition grouping_sample : report_t :=
  set_option amount_ (present "amount")
    (set_option subtotal (present EmptyString)
       (set_option dow (present EmptyString) no_options)).

Definition grouping_sample_stages : list stage :=
  [ dow_xacts; subtotal_xacts; calc_xacts (mk_expr "amount" this_report) ].

(** [sort_entries_] and a period, without [sort_]. *)
Definition sort_entries_sample : report_t :=
  set_option amount_ (present "amount")
    (set_option sort_entries_ (present EmptyString)
       (set_option period_ (present "monthly") no_options)).

Definition sort_entries_sample_stages : list stage :=
  [ sort_xacts "d"; interval_xacts "monthly";
    calc_xacts (mk_expr "amount" this_report) ].

(** The amount expression alone. *)
Definition amount_sample : report_t :=
  set_option amount_ (present "amount") no_options.

(** ** More readings of the wiring order *)

Definition is_payee (st : stage) : bool :=
  match st with set_comm_as_payee | set_code_as_payee => true | _ => false end.

Definition is_related (st : stage) : bool :=
  match st with related_xacts _ => true | _ => false end.

Definition is_revaluation (st : stage) : bool :=
  match st with changed_value_xacts _ _ => true | _ => false end.

(** The subtotal stage and the two grouping stages. *)
Definition is_grouping (st : stage) : bool :=
  match st with
  | subtotal_xacts | dow_xacts | by_payee_xacts => true
  | _ => false
  end.

(** What is wired between the calculator and the subtotal stage. *)
Definition before_subtotal (r : report_t) : list stage :=
  when (HANDLED r only_) (only_filter r)
  ++ when (HANDLED r sort_) (sorter r)
  ++ when (HANDLED r revalued) (revaluation r)
  ++ when (HANDLED r collapse) (collapse_xacts (session r)).

(** What is wired between the only filter and the interval stage. *)
Definition after_only (r : report_t) : list stage :=
  when (HANDLED r sort_) (sorter r)
  ++ when (HANDLED r revalued) (revaluation r)
  ++ when (HANDLED r collapse) (collapse_xacts (session r))
  ++ when (HANDLED r subtotal) subtotal_xacts
  ++ grouping r.

(** Two reports that agree on everything the function reads outside
    the block under [if (handle_individual_xacts)]. *)
Definition agree_on_common (r1 r2 : report_t) : Prop :=
  HANDLED r1 invert = HANDLED r2 invert
  /\ HANDLED r1 related = HANDLED r2 related
  /\ HANDLED r1 related_all = HANDLED r2 related_all
  /\ HANDLED r1 anon = HANDLED r2 anon
  /\ HANDLED r1 limit_ = HANDLED r2 limit_
  /\ str (HANDLER r1 limit_) = str (HANDLER r2 limit_)
  /\ what_to_keep r1 = what_to_keep r2
  /\ HANDLED r1 comm_as_payee = HANDLED r2 comm_as_payee
  /\ HANDLED r1 code_as_payee = HANDLED r2 code_as_payee.

(** Every option present. *)
Definition all_options : report_t :=
  {| HANDLER := fun n =>
       match n with
       | amount_ => present "amount"
       | total_ => present "total"
       | display_ => present "account =~ /A/"
       | only_ => present "account =~ /B/"
       | limit_ => present "account =~ /C/"
       | sort_ => present "-amount"
       | period_ => present "monthly"
       | _ => present EmptyString
       end;
     session := session_ref 0;
     what_to_keep := keep_xact |}.

(** Inversion alone. *)
Definition invert_sample : report_t :=
  set_option invert (present EmptyString) no_options.

(** The amount expression and an only predicate on account A. *)
Definition only_sample : report_t :=
  set_option amount_ (present "amount")
    (set_option only_ (present "account =~ /A/") no_options).

(** The report with the truncation counts taken away. *)
Definition without_truncation (r : report_t) : report_t :=
  set_option head_ absent (set_option tail_ absent r).

(** A head count of 3 and no tail count, with the amount expression
    and the display predicate of the scenario. *)
Definition head_sample : report_t :=
  set_option head_
    {| handled := true; to_long := 3; str := "3";
       expr := mk_expr EmptyString null_scope |}
    display_sample.

(** ** The body, statement by statement *)

(** A statement that only wires stages: it leaves the report alone and
    puts the stages [L report] onto [handler]. *)
Definition appends (s : stmt) (L : report_t -> list stage) : Prop :=
  forall f,
    s f = returned {| report := report f;
                      handler := wire (handler f) (L (report f)) |}.

(** Case analysis on every option flag a goal mentions. *)
Ltac by_flags :=
  unfold HANDLED;
  repeat match goal with
         | |- context [handled ?o] => destruct (handled o)
         end;
  reflexivity.

(** Unfolding the segments of the wiring order down to their stages. *)
Ltac segments :=
  unfold before_calculator, before_interval, interval_grouping,
    common_stages, before_limit, payee_substitution, grouping, when,
    sorter, calculator, truncation, display_filter, only_filter,
    limit_filter, revaluation.

Lemma wire_app base l1 l2 : wire base (l1 ++ l2) = wire (wire base l1) l2.
Proof. unfold wire. apply fold_left_app. Qed.

Lemma appends_skip : appends skip (fun _ => []).
Proof. intros [r h]. reflexivity. Qed.

Lemma appends_reset X : appends (reset X) (fun r => [X r]).
Proof. intros [r h]. reflexivity. Qed.

Lemma appends_seq s1 s2 L1 L2 :
  appends s1 L1 -> appends s2 L2 ->
  appends (s1 ;; s2) (fun r => L1 r ++ L2 r).
Proof.
  intros H1 H2 f. unfold seq. rewrite H1, H2. cbn [report handler].
  now rewrite wire_app.
Qed.

Lemma appends_IFELSE cond s1 s2 L1 L2 :
  appends s1 L1 -> appends s2 L2 ->
  appends (IFELSE cond s1 s2) (fun r => if cond r then L1 r else L2 r).
Proof.
  intros H1 H2 f. unfold IFELSE. destruct (cond (report f)); auto.
Qed.

Lemma appends_IF cond s L :
  appends s L -> appends (IF cond s) (fun r => if cond r then L r else []).
Proof. intro H. apply appends_IFELSE; [exact H | exact appends_skip]. Qed.

Lemma appends_ext s L L' :
  (forall r, L r = L' r) -> appends s L -> appends s L'.
Proof. intros E H f. rewrite H, E. reflexivity. Qed.

Lemma appends_then s k L f :
  appends s L ->
  (s ;; k) f = k {| report := report f;
                    handler := wire (handler f) (L (report f)) |}.
Proof. intro H. unfold seq. now rewrite H. Qed.

Create HintDb wiring.

#[local] Hint Resolve appends_skip appends_reset appends_seq appends_IFELSE
  appends_IF : wiring.

(** The statements after the assertion and the binding of the amount
    expression: the calculator and what follows it. *)
Lemma after_assert_appends :
  appends
    (reset (fun report => calc_xacts (expr (HANDLER report amount_))) ;;
     IF (fun report => HANDLED report only_)
        (reset (fun report =>
           filter_xacts (mk_item_predicate (str (HANDLER report only_))
                                           (what_to_keep report)))) ;;
     IF (fun report => HANDLED report sort_)
        (IFELSE (fun report => HANDLED report sort_entries_)
           (reset (fun report => sort_entries (str (HANDLER report sort_))))
           (reset (fun report => sort_xacts (str (HANDLER report sort_))))) ;;
     IF (fun report => HANDLED report revalued)
        (reset (fun report =>
           changed_value_xacts (expr (HANDLER report total_))
                               (HANDLED report revalued_only))) ;;
     IF (fun report => HANDLED report collapse)
        (reset (fun report => collapse_xacts (session report))) ;;
     IF (fun report => HANDLED report subtotal)
        (reset (fun _ => subtotal_xacts)) ;;
     IFELSE (fun report => HANDLED report dow)
        (reset (fun _ => dow_xacts))
        (IF (fun report => HANDLED report by_payee)
            (reset (fun _ => by_payee_xacts))) ;;
     IF (fun report => HANDLED report period_)
        (reset (fun report => interval_xacts (str (HANDLER report period_))) ;;
         reset (fun _ => sort_xacts "d")))
    (fun r => [calc_xacts (expr (HANDLER r amount_))] ++ after_calculator r).
Proof.
  eapply appends_ext; [| eauto 20 with wiring].
  intro r. cbv beta. unfold after_calculator, before_interval, when, sorter,
    only_filter, revaluation.
  rewrite <- !app_assoc.
  destruct (HANDLED r only_), (HANDLED r sort_), (HANDLED r sort_entries_);
    cbn [app]; repeat f_equal;
    unfold interval_grouping; destruct (HANDLED r period_); reflexivity.
Qed.

Lemma common_appends :
  appends
    (IF (fun report => HANDLED report invert)
        (reset (fun _ => invert_xacts)) ;;
     IF (fun report => HANDLED report related)
        (reset (fun report => related_xacts (HANDLED report related_all))) ;;
     IF (fun report => HANDLED report anon)
        (reset (fun _ => anonymize_xacts)) ;;
     IF (fun report => HANDLED report limit_)
        (reset (fun report =>
           filter_xacts (mk_item_predicate (str (HANDLER report limit_))
                                           (what_to_keep report)))) ;;
     IFELSE (fun report => HANDLED report comm_as_payee)
        (reset (fun _ => set_comm_as_payee))
        (IF (fun report => HANDLED report code_as_payee)
            (reset (fun _ => set_code_as_payee))))
    common_stages.
Proof.
  eapply appends_ext; [| eauto 20 with wiring].
  intro r. cbv beta. unfold common_stages, before_limit, when, limit_filter.
  rewrite <- !app_assoc.
  destruct (HANDLED r invert), (HANDLED r related), (HANDLED r anon),
    (HANDLED r limit_); reflexivity.
Qed.

(** Reading an option other than [amount_] is not affected by the
    binding of the amount expression, and the flag of [amount_] is not
    either. *)
Lemma HANDLED_set_expr_context name r n :
  HANDLED (set_expr_context name r) n = HANDLED r n.
Proof.
  unfold HANDLED, set_expr_context. cbn [HANDLER].
  destruct (option_name_eqb n name); reflexivity.
Qed.

Lemma after_calculator_set_expr_context r :
  after_calculator (set_expr_context amount_ r) = after_calculator r.
Proof. reflexivity. Qed.

Lemma common_stages_set_expr_context r :
  common_stages (set_expr_context amount_ r) = common_stages r.
Proof. reflexivity. Qed.

(** The individual-transaction block: it fails on the assertion, or
    binds the amount expression and wires [individual_stages]. *)
Lemma individual_xacts_run f :
  individual_xacts f =
  if HANDLED (report f) amount_
  then returned {| report := set_expr_context amount_ (report f);
                   handler := wire (handler f) (individual_stages (report f)) |}
  else assertion_failed.
Proof.
  unfold individual_xacts.
  rewrite (appends_then _ _ (fun r =>
             if HANDLED r head_ || HANDLED r tail_ then [truncation r] else []))
    by auto with wiring.
  rewrite (appends_then _ _ (fun r =>
             if HANDLED r display_ then [display_filter r] else []))
    by auto with wiring.
  cbn [report handler]. rewrite <- wire_app.
  unfold seq at 1, assert at 1. cbn [report].
  destruct (HANDLED (report f) amount_); [| reflexivity].
  unfold seq at 1, bind_context at 1. cbn [report handler].
  rewrite after_assert_appends. cbn [report handler].
  rewrite <- wire_app, after_calculator_set_expr_context.
  unfold individual_stages, before_calculator, when, calculator.
  rewrite <- !app_assoc. reflexivity.
Qed.

(** The function does what the builder of the specification says. *)
Lemma chain_xact_handlers_build r base ind :
  chain_xact_handlers r base ind = build r base ind.
Proof.
  unfold chain_xact_handlers, build, chain_xact_handlers_body, wiring_order.
  destruct ind.
  - unfold seq at 1, IF at 1, IFELSE at 1.
    rewrite individual_xacts_run. cbn [report handler andb].
    destruct (HANDLED r amount_); [| reflexivity].
    rewrite common_appends. cbn [report handler negb].
    now rewrite <- wire_app, common_stages_set_expr_context.
  - unfold seq at 1, IF at 1, IFELSE at 1, skip at 1.
    rewrite common_appends. reflexivity.
Qed.

(** ** Chains and streams *)

Lemma wire_snoc base l st : wire base (l ++ [st]) = new st (wire base l).
Proof. now rewrite wire_app. Qed.

Lemma stages_wire base l : stages (wire base l) = rev l ++ stages base.
Proof.
  revert base. induction l as [| st l IH]; intro base; [reflexivity |].
  cbn [wire fold_left]. fold (wire (new st base) l). rewrite IH.
  cbn [stages rev]. now rewrite <- app_assoc.
Qed.

Lemma in_front_of_wire base l : in_front_of base (wire base l) = rev l.
Proof.
  unfold in_front_of. rewrite stages_wire, length_app.
  replace (List.length (rev l) + List.length (stages base)
           - List.length (stages base))%nat
    with (List.length (rev l) + 0)%nat by lia.
  now rewrite firstn_app_2, firstn_O, app_nil_r.
Qed.

Lemma stream_app {E : evaluator} l1 l2 input :
  stream (l1 ++ l2) input = stream l2 (stream l1 input).
Proof. unfold stream. apply fold_left_app. Qed.

Lemma deliver_wire {E : evaluator} base l input :
  deliver (wire base l) input = deliver base (stream (rev l) input).
Proof. unfold deliver. now rewrite stages_wire, stream_app. Qed.

Lemma rev_when b st : rev (when b st) = when b st.
Proof. now destruct b. Qed.

Lemma rev_payee_substitution r :
  rev (payee_substitution r) = payee_substitution r.
Proof.
  unfold payee_substitution.
  now destruct (HANDLED r comm_as_payee), (HANDLED r code_as_payee).
Qed.

(** What a call that returns has returned. *)
Lemma chain_xact_handlers_returned r base ind r' chain :
  chain_xact_handlers r base ind = returned (r', chain) ->
  (ind = true -> HANDLED r amount_ = true)
  /\ r' = (if ind then set_expr_context amount_ r else r)
  /\ chain = wire base (wiring_order r ind).
Proof.
  rewrite chain_xact_handlers_build. unfold build.
  destruct ind, (HANDLED r amount_); cbn [andb negb]; intro H;
    try discriminate; injection H as <- <-; auto.
Qed.

(** ** The wiring order *)

(** C1.  [chain_xact_handlers] starts from the base handler and wires
    the enabled stages in the fixed order truncation, display filter,
    calculator, only filter, sort, revaluation, collapse, subtotal,
    day-of-week or payee grouping, interval grouping with its date sort,
    invert, related, anonymize, limit filter, payee substitution (the
    builder [build] over [wiring_order]); each stage is put in front of
    the chain assembled before it, so the stages of the result, head
    first, are the wiring order reversed, and the stage wired last is
    the head. *)
Theorem chain_xact_handlers_wiring_order r base ind :
  chain_xact_handlers r base ind = build r base ind
  /\ stages (wire base (wiring_order r ind))
     = rev (wiring_order r ind) ++ stages base
  /\ (forall l st,
        wire base (l ++ [st]) = new st (wire base l)
        /\ hd_error (stages (wire base (l ++ [st]))) = Some st).
Proof.
  split; [apply chain_xact_handlers_build |].
  split; [apply stages_wire |].
  intros l st. rewrite wire_snoc. split; reflexivity.
Qed.

(** ** The calculator and the display filter *)

Lemma rev_before_calculator r :
  rev (before_calculator r)
  = when (HANDLED r display_) (display_filter r)
    ++ when (HANDLED r head_ || HANDLED r tail_) (truncation r).
Proof.
  unfold before_calculator. now rewrite rev_app_distr, !rev_when.
Qed.

Lemma rev_individual_stages r :
  rev (individual_stages r)
  = rev (after_calculator r) ++ calculator r :: rev (before_calculator r).
Proof.
  unfold individual_stages.
  rewrite !rev_app_distr. cbn [rev app]. now rewrite <- app_assoc.
Qed.

(** C2, as the code has it.  In individual-transaction mode the display
    filter is wired before the calculator, so the calculator runs
    immediately before it: the running totals are computed over every
    transaction that reaches the calculator, and the display filter
    (and the truncation after it) removes transactions from the stream
    that already carries its totals. *)
Theorem calculator_runs_before_display_filter {E : evaluator}
    r base r' chain input :
  chain_xact_handlers r base true = returned (r', chain) ->
  stages chain
  = rev (after_calculator r ++ common_stages r)
    ++ calculator r
    :: (when (HANDLED r display_) (display_filter r)
        ++ when (HANDLED r head_ || HANDLED r tail_) (truncation r))
    ++ stages base
  /\ deliver chain input
     = deliver base
         (stream (when (HANDLED r display_) (display_filter r)
                  ++ when (HANDLED r head_ || HANDLED r tail_) (truncation r))
            (running_total (value_of (expr (HANDLER r' amount_))) 0
               (stream (rev (after_calculator r ++ common_stages r)) input))).
Proof.
  intro H. apply chain_xact_handlers_returned in H as (_ & -> & ->).
  assert (R : rev (wiring_order r true)
              = rev (after_calculator r ++ common_stages r)
                ++ calculator r
                :: when (HANDLED r display_) (display_filter r)
                   ++ when (HANDLED r head_ || HANDLED r tail_) (truncation r)).
  { unfold wiring_order.
    rewrite rev_app_distr, rev_individual_stages, rev_before_calculator.
    rewrite (rev_app_distr (after_calculator r)), <- app_assoc.
    reflexivity. }
  split.
  - rewrite stages_wire, R, <- app_assoc. reflexivity.
  - rewrite deliver_wire, R, stream_app. reflexivity.
Qed.

(** The scenario of the specification: the calculator in front of the
    display filter, and the totals 10 and 5 at the formatter. *)
Lemma calculator_runs_before_display_filter_witness :
  stages display_sample_chain
  = rev (after_calculator display_sample ++ common_stages display_sample)
    ++ calculator display_sample
    :: (when (HANDLED display_sample display_) (display_filter display_sample)
        ++ when (HANDLED display_sample head_ || HANDLED display_sample tail_)
             (truncation display_sample))
    ++ stages format_xacts
  /\ @deliver sample_evaluator display_sample_chain sample_journal
     = [ mk_xact 1 "A" 10 10; mk_xact 2 "A" 5 5 ].
Proof.
  destruct (@calculator_runs_before_display_filter sample_evaluator
              display_sample format_xacts
              (set_expr_context amount_ display_sample)
              display_sample_chain sample_journal) as [S D];
    [reflexivity |].
  split; [exact S | rewrite D; reflexivity].
Defined.

(** C2, as the specification has it, fails on the scenario of the
    specification itself.  The chain for the amount expression and a
    display predicate on account A has the calculator in front of the
    display filter, so the display filter does not run before the
    calculator; the second transaction of account A arrives with the
    total 5, to which the excluded transaction of account B has
    contributed -10, where filtering before the calculator would have
    given 15. *)
Lemma display_filter_before_calculator_counterexample :
  chain_xact_handlers display_sample format_xacts true
  = returned (set_expr_context amount_ display_sample, display_sample_chain)
  /\ runs_before (stage_eqb (display_filter display_sample)) is_calc
       (stages display_sample_chain) = false
  /\ runs_before is_calc (stage_eqb (display_filter display_sample))
       (stages display_sample_chain) = true
  /\ @deliver sample_evaluator display_sample_chain sample_journal
     = [ mk_xact 1 "A" 10 10; mk_xact 2 "A" 5 5 ]
  /\ @stream sample_evaluator
       [display_filter display_sample; calculator display_sample]
       sample_journal
     = [ mk_xact 1 "A" 10 10; mk_xact 2 "A" 5 15 ].
Proof. repeat split. Qed.

(** ** Interval grouping and its date sort *)

Lemma interval_grouping_handled r :
  HANDLED r period_ = true ->
  interval_grouping r
  = [interval_xacts (str (HANDLER r period_)); sort_xacts "d"].
Proof. unfold interval_grouping. now intros ->. Qed.

(** C3, as the code has it.  When the period option is present in
    individual-transaction mode, the interval stage is wired and the
    date sort [sort_xacts "d"] is wired right after it, in front of it:
    the date sort runs immediately before the interval stage and sorts
    what the interval stage receives, whatever the sort option says.
    The stages wired before the interval stage, the sort stage of the
    sort option among them, run after it, on its grouped output. *)
Theorem date_sort_runs_before_interval {E : evaluator}
    r base r' chain input :
  HANDLED r period_ = true ->
  chain_xact_handlers r base true = returned (r', chain) ->
  stages chain
  = rev (common_stages r)
    ++ sort_xacts "d"
    :: interval_xacts (str (HANDLER r period_))
    :: rev (before_calculator r ++ calculator r :: before_interval r)
    ++ stages base
  /\ deliver chain input
     = deliver base
         (stream (rev (before_calculator r ++ calculator r :: before_interval r))
            (stage_stream (interval_xacts (str (HANDLER r period_)))
               (stage_stream (sort_xacts "d")
                  (stream (rev (common_stages r)) input))))
  /\ (HANDLED r sort_ = true -> In (sorter r) (before_interval r)).
Proof.
  intros P H. apply chain_xact_handlers_returned in H as (_ & -> & ->).
  assert (R : rev (wiring_order r true)
              = rev (common_stages r)
                ++ sort_xacts "d"
                :: interval_xacts (str (HANDLER r period_))
                :: rev (before_calculator r
                        ++ calculator r :: before_interval r)).
  { unfold wiring_order, individual_stages, after_calculator.
    rewrite (interval_grouping_handled r P).
    rewrite !rev_app_distr. cbn [rev app].
    rewrite <- !app_assoc. reflexivity. }
  split; [| split].
  - rewrite stages_wire, R, <- app_assoc. reflexivity.
  - rewrite deliver_wire, R, stream_app. reflexivity.
  - intro S. unfold before_interval, when. rewrite S.
    apply in_or_app. right. left. reflexivity.
Qed.

(** A period with a sort option: date sort, interval stage, sort stage,
    calculator. *)
Lemma date_sort_runs_before_interval_witness :
  stages (wire format_xacts (wiring_order period_sample true))
  = period_sample_stages
  /\ In (sort_xacts "-amount") (before_interval period_sample).
Proof.
  destruct (@date_sort_runs_before_interval sample_evaluator
              period_sample format_xacts
              (set_expr_context amount_ period_sample)
              (wire format_xacts (wiring_order period_sample true))
              sample_journal) as (S & _ & I);
    [reflexivity | reflexivity |].
  split; [rewrite S; reflexivity | exact (I eq_refl)].
Defined.

(** C3, as the specification has it, fails for a period with a sort
    option.  The date sort is the head of the chain and forwards to the
    interval stage; the interval stage forwards its grouped output to
    the sort stage of the sort option, and no date sort comes after the
    interval stage. *)
Lemma date_sort_after_interval_counterexample :
  option_map stages
    (returned_chain (chain_xact_handlers period_sample format_xacts true))
  = Some period_sample_stages
  /\ next_after is_interval period_sample_stages = Some (sort_xacts "-amount")
  /\ next_after (stage_eqb (sort_xacts "d")) period_sample_stages
     = Some (interval_xacts "monthly")
  /\ runs_before is_interval (stage_eqb (sort_xacts "d")) period_sample_stages
     = false.
Proof. repeat split. Qed.

(** ** The limit filter *)

Lemma rev_common_stages r :
  rev (common_stages r)
  = payee_substitution r
    ++ when (HANDLED r limit_) (limit_filter r)
    ++ rev (before_limit r).
Proof.
  unfold common_stages.
  rewrite !rev_app_distr, rev_when, rev_payee_substitution.
  now rewrite <- app_assoc.
Qed.

(** C5, as the code has it.  When the limit option is present, the
    limit filter is wired after every other stage except the payee
    substitution, which is put in front of it.  In the execution order
    it is therefore the first stage, preceded only by the payee
    substitution when there is one: it decides which transactions enter
    the rest of the chain, and every other wired stage works on what it
    lets through. *)
Theorem limit_filter_runs_first {E : evaluator}
    r base ind r' chain input :
  HANDLED r limit_ = true ->
  chain_xact_handlers r base ind = returned (r', chain) ->
  stages chain
  = payee_substitution r
    ++ limit_filter r
    :: rev ((if ind then individual_stages r else []) ++ before_limit r)
    ++ stages base
  /\ deliver chain input
     = deliver base
         (stream
            (rev ((if ind then individual_stages r else []) ++ before_limit r))
            (filter (matches (mk_item_predicate (str (HANDLER r limit_))
                                                (what_to_keep r)))
               (stream (payee_substitution r) input))).
Proof.
  intros L H. apply chain_xact_handlers_returned in H as (_ & -> & ->).
  assert (R : rev (wiring_order r ind)
              = payee_substitution r
                ++ limit_filter r
                :: rev ((if ind then individual_stages r else [])
                        ++ before_limit r)).
  { unfold wiring_order.
    rewrite rev_app_distr, rev_common_stages, L. unfold when.
    rewrite (rev_app_distr _ (before_limit r)), <- !app_assoc.
    reflexivity. }
  split.
  - rewrite stages_wire, R, <- app_assoc. reflexivity.
  - rewrite deliver_wire, R, stream_app. reflexivity.
Qed.

(** A limit predicate with inversion and payee substitution. *)
Lemma limit_filter_runs_first_witness :
  stages (wire format_xacts (wiring_order limit_sample false))
  = limit_sample_stages.
Proof.
  destruct (@limit_filter_runs_first sample_evaluator
              limit_sample format_xacts false limit_sample
              (wire format_xacts (wiring_order limit_sample false))
              sample_journal) as (S & _);
    [reflexivity | reflexivity |].
  rewrite S. reflexivity.
Defined.

(** C5, as the specification has it, fails for a limit predicate with
    inversion and payee substitution.  The limit filter is neither the
    last stage wired nor the last to run: the payee substitution is
    wired after it, and the filter forwards to the inversion, which is
    the last stage the transactions pass. *)
Lemma limit_filter_last_counterexample :
  chain_xact_handlers limit_sample format_xacts false
  = returned (limit_sample,
              new set_comm_as_payee
                (new (limit_filter limit_sample)
                   (new invert_xacts format_xacts)))
  /\ wiring_order limit_sample false
     = [invert_xacts; limit_filter limit_sample; set_comm_as_payee]
  /\ option_map stages
       (returned_chain (chain_xact_handlers limit_sample format_xacts false))
     = Some limit_sample_stages
  /\ hd_error (rev limit_sample_stages) = Some invert_xacts
  /\ next_after (stage_eqb (limit_filter limit_sample)) limit_sample_stages
     = Some invert_xacts.
Proof. repeat split. Qed.

(** ** Which stages are wired *)

Lemma existsb_wiring_order P r ind :
  existsb P (wiring_order r ind)
  = ind && (existsb P (before_calculator r) || P (calculator r)
            || existsb P (before_interval r)
            || existsb P (interval_grouping r))
    || existsb P (common_stages r).
Proof.
  unfold wiring_order, individual_stages, after_calculator.
  destruct ind; cbn [andb orb]; [| reflexivity].
  rewrite !existsb_app. cbn [existsb].
  rewrite orb_false_r, !orb_assoc. reflexivity.
Qed.

Lemma existsb_reversed (P : stage -> bool) l :
  existsb P (rev l) = existsb P l.
Proof.
  induction l as [| st l IH]; [reflexivity |].
  cbn [rev existsb]. rewrite existsb_app, IH. cbn [existsb].
  rewrite orb_false_r. apply orb_comm.
Qed.

Lemma existsb_in_front_of P r base ind r' chain :
  chain_xact_handlers r base ind = returned (r', chain) ->
  existsb P (in_front_of base chain) = existsb P (wiring_order r ind).
Proof.
  intro H. apply chain_xact_handlers_returned in H as (_ & _ & ->).
  rewrite in_front_of_wire. apply existsb_reversed.
Qed.

Lemma filter_reversed_list (P : stage -> bool) l :
  filter P (rev l) = rev (filter P l).
Proof.
  induction l as [| st l IH]; [reflexivity |].
  cbn [rev filter]. rewrite filter_app, IH. cbn [filter].
  destruct (P st); [reflexivity | apply app_nil_r].
Qed.

Lemma rev_grouping r : rev (grouping r) = grouping r.
Proof.
  unfold grouping. now destruct (HANDLED r dow), (HANDLED r by_payee).
Qed.

Lemma before_interval_subtotal r :
  before_interval r
  = before_subtotal r
    ++ when (HANDLED r subtotal) subtotal_xacts
    ++ grouping r.
Proof.
  unfold before_interval, before_subtotal. now rewrite <- !app_assoc.
Qed.

(** C4, as the code has it.  Day-of-week grouping and payee grouping
    exclude each other, and day-of-week grouping wins when both are
    selected.  Plain subtotaling is independent of both: in
    individual-transaction mode the subtotal stage is wired whenever the
    subtotal option is present, with or without a grouping stage.  The
    grouping stage is wired right after the subtotal stage, so it
    stands directly in front of it: of the three classes the chain has
    the grouping stage first and the subtotal stage next, and nothing
    is wired between the two. *)
Theorem grouping_stages_wired r base ind r' chain :
  chain_xact_handlers r base ind = returned (r', chain) ->
  existsb is_subtotal (in_front_of base chain) = ind && HANDLED r subtotal
  /\ existsb is_dow (in_front_of base chain) = ind && HANDLED r dow
  /\ existsb is_by_payee (in_front_of base chain)
     = ind && HANDLED r by_payee && negb (HANDLED r dow)
  /\ filter is_grouping (in_front_of base chain)
     = (if ind
        then (if HANDLED r dow then [dow_xacts]
              else if HANDLED r by_payee then [by_payee_xacts]
              else [])
             ++ when (HANDLED r subtotal) subtotal_xacts
        else [])
  /\ (ind = true ->
      stages chain
      = rev (interval_grouping r ++ common_stages r)
        ++ (if HANDLED r dow then [dow_xacts]
            else if HANDLED r by_payee then [by_payee_xacts]
            else [])
        ++ when (HANDLED r subtotal) subtotal_xacts
        ++ rev (before_calculator r ++ calculator r :: before_subtotal r)
        ++ stages base).
Proof.
  intro H.
  rewrite !(existsb_in_front_of _ _ _ _ _ _ H), !existsb_wiring_order.
  assert (C : forall P, (forall p, P (filter_xacts p) = false) ->
                        P invert_xacts = false ->
                        (forall b, P (related_xacts b) = false) ->
                        P anonymize_xacts = false ->
                        P set_comm_as_payee = false ->
                        P set_code_as_payee = false ->
                        existsb P (common_stages r) = false).
  { intros P F I R A C1 C2. segments.
    rewrite !existsb_app.
    destruct (HANDLED r invert), (HANDLED r related), (HANDLED r anon),
      (HANDLED r limit_), (HANDLED r comm_as_payee),
      (HANDLED r code_as_payee); cbn [existsb orb];
      rewrite ?F, ?I, ?R, ?A, ?C1, ?C2; reflexivity. }
  rewrite !C by reflexivity.
  apply chain_xact_handlers_returned in H as (_ & _ & ->).
  split; [| split; [| split; [| split]]].
  - segments; destruct ind; cbn [andb orb]; try reflexivity; by_flags.
  - segments; destruct ind; cbn [andb orb]; try reflexivity; by_flags.
  - segments; destruct ind; cbn [andb orb]; try reflexivity; by_flags.
  - rewrite in_front_of_wire, filter_reversed_list.
    unfold wiring_order, individual_stages, after_calculator.
    assert (G : filter is_grouping (common_stages r) = [])
      by (segments; by_flags).
    destruct ind; cbn [app]; [| now rewrite G].
    rewrite before_interval_subtotal, !filter_app.
    cbn [filter is_grouping calculator]. rewrite !filter_app, G.
    replace (filter is_grouping (before_calculator r)) with (@nil stage)
      by (segments; by_flags).
    replace (filter is_grouping (before_subtotal r)) with (@nil stage)
      by (unfold before_subtotal; segments; by_flags).
    replace (filter is_grouping (interval_grouping r)) with (@nil stage)
      by (segments; by_flags).
    replace (filter is_grouping (when (HANDLED r subtotal) subtotal_xacts))
      with (when (HANDLED r subtotal) subtotal_xacts)
      by (unfold when; by_flags).
    replace (filter is_grouping (grouping r)) with (grouping r)
      by (segments; by_flags).
    cbn [filter is_grouping calculator app].
    rewrite !app_nil_r, rev_app_distr, rev_when, rev_grouping.
    reflexivity.
  - intros ->. rewrite stages_wire.
    unfold wiring_order, individual_stages, after_calculator.
    rewrite before_interval_subtotal.
    rewrite !rev_app_distr. cbn [rev app].
    rewrite rev_when, rev_grouping, <- !app_assoc. reflexivity.
Qed.

(** Subtotals with day-of-week grouping: both stages are wired, the
    day-of-week stage directly in front of the subtotal stage. *)
Lemma grouping_stages_wired_witness :
  filter is_grouping
    (in_front_of format_xacts
       (wire format_xacts (wiring_order grouping_sample true)))
  = [dow_xacts; subtotal_xacts]
  /\ stages (wire format_xacts (wiring_order grouping_sample true))
     = grouping_sample_stages.
Proof.
  destruct (grouping_stages_wired grouping_sample format_xacts true
              (set_expr_context amount_ grouping_sample)
              (wire format_xacts (wiring_order grouping_sample true)))
    as (_ & _ & _ & F & S); [reflexivity |].
  split; [rewrite F | rewrite (S eq_refl)]; reflexivity.
Defined.

(** C4, as the specification has it, fails when subtotals and
    day-of-week grouping are requested together: the chain has the
    day-of-week stage and the subtotal stage, the one forwarding to the
    other. *)
Lemma subtotal_with_grouping_counterexample :
  option_map stages
    (returned_chain (chain_xact_handlers grouping_sample format_xacts true))
  = Some grouping_sample_stages
  /\ existsb is_subtotal grouping_sample_stages = true
  /\ existsb is_dow grouping_sample_stages = true
  /\ next_after is_dow grouping_sample_stages = Some subtotal_xacts.
Proof. repeat split. Qed.

(** ** Failure *)

(** C6.  The call fails exactly when individual-transaction mode is
    requested and the amount expression is absent; the assertion stops
    the build, which takes no transaction, and in every other case the
    call returns a chain. *)
Theorem chain_xact_handlers_fails_iff r base ind :
  (chain_xact_handlers r base ind = assertion_failed
   <-> ind = true /\ HANDLED r amount_ = false)
  /\ (chain_xact_handlers r base ind <> assertion_failed
      <-> exists r' chain,
            chain_xact_handlers r base ind = returned (r', chain)).
Proof.
  rewrite chain_xact_handlers_build. unfold build. split.
  - destruct ind, (HANDLED r amount_); cbn [andb negb]; split; intro H;
      try discriminate H; try (destruct H; discriminate); auto.
  - destruct (ind && negb (HANDLED r amount_)); split.
    + intro N. now contradiction N.
    + intros (? & ? & ?). discriminate.
    + eauto.
    + discriminate.
Qed.

(** No option at all fails in individual-transaction mode; the amount
    expression alone does not. *)
Lemma chain_xact_handlers_fails_iff_witness :
  chain_xact_handlers no_options format_xacts true = assertion_failed
  /\ chain_xact_handlers amount_sample format_xacts true <> assertion_failed.
Proof.
  split.
  - apply (chain_xact_handlers_fails_iff no_options format_xacts true).
    split; reflexivity.
  - apply (chain_xact_handlers_fails_iff amount_sample format_xacts true).
    eexists _, _. reflexivity.
Defined.

(** ** Both modes *)

(** C7.  Without individual-transaction mode the call always returns,
    and what it wires is [common_stages]: inversion, related expansion,
    anonymization, the limit filter and a payee substitution, each when
    its option is present; no stage of a class of steps 2 to 10 is among
    them, and the only filter is the limit filter.  With
    individual-transaction mode the same stages are wired, after the
    individual ones. *)
Theorem common_stages_in_both_modes r base :
  chain_xact_handlers r base false = returned (r, wire base (common_stages r))
  /\ in_front_of base (wire base (common_stages r))
     = payee_substitution r
       ++ when (HANDLED r limit_) (limit_filter r)
       ++ when (HANDLED r anon) anonymize_xacts
       ++ when (HANDLED r related) (related_xacts (HANDLED r related_all))
       ++ when (HANDLED r invert) invert_xacts
  /\ existsb individual_class (common_stages r) = false
  /\ filter is_filter (common_stages r)
     = when (HANDLED r limit_) (limit_filter r)
  /\ (forall r' chain,
        chain_xact_handlers r base true = returned (r', chain) ->
        chain = wire (wire base (individual_stages r)) (common_stages r)).
Proof.
  split; [| split; [| split; [| split]]].
  - rewrite chain_xact_handlers_build. reflexivity.
  - rewrite in_front_of_wire, rev_common_stages. unfold before_limit.
    rewrite !rev_app_distr, !rev_when, <- !app_assoc. reflexivity.
  - segments. by_flags.
  - segments. by_flags.
  - intros r' chain H.
    apply chain_xact_handlers_returned in H as (_ & _ & ->).
    unfold wiring_order. apply wire_app.
Qed.

(** The stages of both modes, without and with the individual ones. *)
Lemma common_stages_in_both_modes_witness :
  wire format_xacts (wiring_order limit_sample false)
  = wire format_xacts (common_stages limit_sample)
  /\ wire format_xacts (wiring_order amount_sample true)
     = wire (wire format_xacts (individual_stages amount_sample))
         (common_stages amount_sample).
Proof.
  split.
  - reflexivity.
  - apply (common_stages_in_both_modes amount_sample format_xacts)
      with (r' := set_expr_context amount_ amount_sample).
    reflexivity.
Defined.

(** C9.  Without individual-transaction mode and with none of the
    options invert, related, anon, limit, comm_as_payee and
    code_as_payee, the call returns the base handler itself and leaves
    the report as it was. *)
Theorem chain_xact_handlers_returns_base r base :
  HANDLED r invert = false ->
  HANDLED r related = false ->
  HANDLED r anon = false ->
  HANDLED r limit_ = false ->
  HANDLED r comm_as_payee = false ->
  HANDLED r code_as_payee = false ->
  chain_xact_handlers r base false = returned (r, base)
  /\ in_front_of base base = [].
Proof.
  intros I R A L C1 C2. split.
  - rewrite chain_xact_handlers_build. unfold build, wiring_order.
    cbn [andb app]. segments. rewrite I, R, A, L, C1, C2. reflexivity.
  - apply (in_front_of_wire base []).
Qed.

(** Options of the individual block only, and the flag off: the base
    handler comes back. *)
Lemma chain_xact_handlers_returns_base_witness :
  chain_xact_handlers display_sample format_xacts false
  = returned (display_sample, format_xacts).
Proof.
  apply (chain_xact_handlers_returns_base display_sample format_xacts);
    reflexivity.
Defined.

(** ** The report after the call *)

(** C8, as the code has it.  The call leaves the presence, the value
    and the expression text of every option as they were, and the
    session and the keep policy with them.  What it writes is the
    context of the amount expression, which in individual-transaction
    mode is bound to the report; every other option is untouched, and
    without individual-transaction mode the report is not written at
    all. *)
Theorem report_after_chain_xact_handlers r base ind r' chain :
  chain_xact_handlers r base ind = returned (r', chain) ->
  (forall n,
      handled (HANDLER r' n) = handled (HANDLER r n)
      /\ to_long (HANDLER r' n) = to_long (HANDLER r n)
      /\ str (HANDLER r' n) = str (HANDLER r n)
      /\ text (expr (HANDLER r' n)) = text (expr (HANDLER r n)))
  /\ session r' = session r
  /\ what_to_keep r' = what_to_keep r
  /\ (forall n, n <> amount_ -> HANDLER r' n = HANDLER r n)
  /\ (ind = false -> r' = r)
  /\ (ind = true -> context (expr (HANDLER r' amount_)) = this_report).
Proof.
  intro H. apply chain_xact_handlers_returned in H as (_ & -> & _).
  destruct ind.
  - repeat split; try discriminate.
    + cbn. now destruct (option_name_eqb n amount_).
    + cbn. now destruct (option_name_eqb n amount_).
    + cbn. now destruct (option_name_eqb n amount_).
    + cbn. now destruct (option_name_eqb n amount_).
    + intros n N. cbn. destruct n; try reflexivity. now contradiction N.
  - repeat split; discriminate.
Qed.

(** The display text stays; the amount expression is bound. *)
Lemma report_after_chain_xact_handlers_witness :
  str (HANDLER (set_expr_context amount_ display_sample) display_)
  = "account =~ /A/"
  /\ context (expr (HANDLER (set_expr_context amount_ display_sample) amount_))
     = this_report.
Proof.
  destruct (report_after_chain_xact_handlers display_sample format_xacts true
              (set_expr_context amount_ display_sample) display_sample_chain)
    as (O & _ & _ & _ & _ & C); [reflexivity |].
  split.
  - destruct (O display_) as (_ & _ & S & _). rewrite S. reflexivity.
  - exact (C eq_refl).
Defined.

(** C8, as the specification has it, fails in individual-transaction
    mode: the amount expression of the report comes back with the
    report as its context, where it had none before the call. *)
Lemma report_read_only_counterexample :
  chain_xact_handlers amount_sample format_xacts true
  = returned (set_expr_context amount_ amount_sample,
              new (calc_xacts (mk_expr "amount" this_report)) format_xacts)
  /\ context (expr (HANDLER amount_sample amount_)) = null_scope
  /\ context (expr (HANDLER (set_expr_context amount_ amount_sample) amount_))
     = this_report
  /\ set_expr_context amount_ amount_sample <> amount_sample.
Proof.
  repeat split. intro H.
  apply (f_equal (fun r => context (expr (HANDLER r amount_)))) in H.
  discriminate H.
Qed.

(** ** Sorting *)

Lemma wiring_order_set_sort_entries o r ind :
  HANDLED r sort_ = false ->
  wiring_order (set_option sort_entries_ o r) ind = wiring_order r ind.
Proof.
  intro S.
  unfold wiring_order, individual_stages, after_calculator, before_interval.
  replace (when (HANDLED (set_option sort_entries_ o r) sort_)
             (sorter (set_option sort_entries_ o r)))
    with (when (HANDLED r sort_) (sorter r))
    by (change (HANDLED (set_option sort_entries_ o r) sort_)
          with (HANDLED r sort_); now rewrite S).
  reflexivity.
Qed.

Lemma filter_reversed (P : stage -> bool) l :
  filter P (rev l) = rev (filter P l).
Proof.
  induction l as [| st l IH]; [reflexivity |].
  cbn [rev filter]. rewrite filter_app, IH. cbn [filter].
  destruct (P st); [reflexivity | apply app_nil_r].
Qed.

(** C10, as the code has it.  The sort stage of the sort option,
    [sort_entries] or [sort_xacts] with the sort expression, is wired
    only when the sort option is present.  With [sort_] absent the
    option [sort_entries_] has no effect on the chain, no [sort_entries]
    stage is wired, and the only sort stage there can be is the date
    sort that comes with the period option. *)
Theorem sort_entries_without_sort r base ind :
  HANDLED r sort_ = false ->
  (forall o,
      returned_chain (chain_xact_handlers (set_option sort_entries_ o r)
                                          base ind)
      = returned_chain (chain_xact_handlers r base ind))
  /\ (forall r' chain,
        chain_xact_handlers r base ind = returned (r', chain) ->
        filter is_sort (in_front_of base chain)
        = if ind && HANDLED r period_ then [sort_xacts "d"] else []).
Proof.
  intro S. split.
  - intro o. rewrite !chain_xact_handlers_build. unfold build.
    rewrite (wiring_order_set_sort_entries o r ind S).
    change (HANDLED (set_option sort_entries_ o r) amount_)
      with (HANDLED r amount_).
    destruct (ind && negb (HANDLED r amount_)); reflexivity.
  - intros r' chain H.
    apply chain_xact_handlers_returned in H as (_ & _ & ->).
    rewrite in_front_of_wire, filter_reversed.
    assert (C : filter is_sort (common_stages r) = [])
      by (segments; by_flags).
    assert (B : filter is_sort (before_calculator r) = [])
      by (segments; by_flags).
    assert (I : filter is_sort (before_interval r) = [])
      by (segments; rewrite S; by_flags).
    unfold wiring_order, individual_stages, after_calculator.
    destruct ind; cbn [andb app]; [| now rewrite C].
    rewrite !filter_app. cbn [filter is_sort calculator].
    rewrite !filter_app, C, B, I. cbn [app]. rewrite app_nil_r.
    unfold interval_grouping. now destruct (HANDLED r period_).
Qed.

(** With and without [sort_entries_], the same chain. *)
Lemma sort_entries_without_sort_witness :
  returned_chain (chain_xact_handlers sort_entries_sample format_xacts true)
  = returned_chain
      (chain_xact_handlers
         (set_option amount_ (present "amount")
            (set_option period_ (present "monthly") no_options))
         format_xacts true).
Proof.
  destruct (sort_entries_without_sort
              (set_option amount_ (present "amount")
                 (set_option period_ (present "monthly") no_options))
              format_xacts true) as [F _]; [reflexivity |].
  rewrite <- (F (present EmptyString)). reflexivity.
Defined.

(** C10, as the specification has it, fails for a period without the
    sort option: a sort stage, the date sort, is wired although [sort_]
    is absent. *)
Lemma sort_stage_without_sort_counterexample :
  HANDLED sort_entries_sample sort_ = false
  /\ HANDLED sort_entries_sample sort_entries_ = true
  /\ option_map stages
       (returned_chain
          (chain_xact_handlers sort_entries_sample format_xacts true))
     = Some sort_entries_sample_stages
  /\ existsb is_sort sort_entries_sample_stages = true.
Proof. repeat split. Qed.

(** ** The stages of one class *)

Lemma returned_chain_build r base ind :
  returned_chain (chain_xact_handlers r base ind)
  = if ind && negb (HANDLED r amount_)
    then None
    else Some (wire base (wiring_order r ind)).
Proof.
  rewrite chain_xact_handlers_build. unfold build.
  now destruct (ind && negb (HANDLED r amount_)).
Qed.

Lemma filter_wiring_order P r ind :
  filter P (wiring_order r ind)
  = (if ind
     then filter P (before_calculator r)
          ++ filter P [calculator r]
          ++ filter P (before_interval r)
          ++ filter P (interval_grouping r)
     else [])
    ++ filter P (common_stages r).
Proof.
  unfold wiring_order, individual_stages, after_calculator.
  destruct ind; [| reflexivity].
  now rewrite !filter_app.
Qed.

Lemma filter_in_front_of P r base ind r' chain :
  chain_xact_handlers r base ind = returned (r', chain) ->
  filter P (in_front_of base chain) = rev (filter P (wiring_order r ind)).
Proof.
  intro H. apply chain_xact_handlers_returned in H as (_ & _ & ->).
  now rewrite in_front_of_wire, filter_reversed.
Qed.

Lemma before_interval_only r :
  before_interval r = when (HANDLED r only_) (only_filter r) ++ after_only r.
Proof. reflexivity. Qed.

(** ** The only filter and the calculator *)

(** X1.  In individual-transaction mode with the only option present,
    the only filter is wired right after the calculator and so runs
    immediately before it: the calculator receives exactly the
    transactions the only filter lets through, and the running totals
    are computed over those. *)
Theorem only_filter_feeds_calculator {E : evaluator}
    r base r' chain input :
  HANDLED r only_ = true ->
  chain_xact_handlers r base true = returned (r', chain) ->
  stages chain
  = rev (after_only r ++ interval_grouping r ++ common_stages r)
    ++ only_filter r
    :: calculator r
    :: rev (before_calculator r)
    ++ stages base
  /\ deliver chain input
     = deliver base
         (stream (rev (before_calculator r))
            (running_total (value_of (expr (HANDLER r' amount_))) 0
               (filter (matches (mk_item_predicate (str (HANDLER r only_))
                                                   (what_to_keep r)))
                  (stream
                     (rev (after_only r ++ interval_grouping r
                           ++ common_stages r))
                     input)))).
Proof.
  intros O H. apply chain_xact_handlers_returned in H as (_ & -> & ->).
  assert (R : rev (wiring_order r true)
              = rev (after_only r ++ interval_grouping r ++ common_stages r)
                ++ only_filter r :: calculator r
                   :: rev (before_calculator r)).
  { unfold wiring_order, individual_stages, after_calculator.
    rewrite before_interval_only, O. unfold when.
    rewrite !rev_app_distr. cbn [rev app].
    rewrite <- !app_assoc. reflexivity. }
  split.
  - rewrite stages_wire, R, <- app_assoc. reflexivity.
  - rewrite deliver_wire, R, stream_app. reflexivity.
Qed.

(** The amount expression with an only predicate on account A: of the
    journal of the specification the two transactions of A reach the
    formatter, with the totals 10 and 15. *)
Lemma only_filter_feeds_calculator_witness :
  stages (wire format_xacts (wiring_order only_sample true))
  = [ filter_xacts (mk_item_predicate "account =~ /A/" keep_xact);
      calc_xacts (mk_expr "amount" this_report) ]
  /\ @deliver sample_evaluator
       (wire format_xacts (wiring_order only_sample true)) sample_journal
     = [ mk_xact 1 "A" 10 10; mk_xact 2 "A" 5 15 ].
Proof.
  destruct (@only_filter_feeds_calculator sample_evaluator
              only_sample format_xacts
              (set_expr_context amount_ only_sample)
              (wire format_xacts (wiring_order only_sample true))
              sample_journal) as [S D];
    [reflexivity | reflexivity |].
  split; [rewrite S | rewrite D]; reflexivity.
Defined.

(** X2.  The predicate filters run in the order limit, only, display:
    these are the only [filter_xacts] stages the call wires, each under
    its option, the only and display filters in individual-transaction
    mode only. *)
Theorem predicate_filters_in_order r base ind r' chain :
  chain_xact_handlers r base ind = returned (r', chain) ->
  filter is_filter (in_front_of base chain)
  = when (HANDLED r limit_) (limit_filter r)
    ++ (if ind
        then when (HANDLED r only_) (only_filter r)
             ++ when (HANDLED r display_) (display_filter r)
        else []).
Proof.
  intro H. rewrite (filter_in_front_of _ _ _ _ _ _ H), filter_wiring_order.
  replace (filter is_filter (common_stages r))
    with (when (HANDLED r limit_) (limit_filter r))
    by (segments; by_flags).
  destruct ind.
  - replace (filter is_filter (before_calculator r))
      with (when (HANDLED r display_) (display_filter r))
      by (segments; by_flags).
    replace (filter is_filter (before_interval r))
      with (when (HANDLED r only_) (only_filter r))
      by (segments; by_flags).
    replace (filter is_filter (interval_grouping r)) with (@nil stage)
      by (segments; by_flags).
    cbn [filter is_filter calculator app].
    rewrite app_nil_r, !rev_app_distr, !rev_when. reflexivity.
  - cbn [app]. now rewrite rev_when, app_nil_r.
Qed.

Lemma predicate_filters_in_order_witness :
  filter is_filter
    (in_front_of format_xacts (wire format_xacts (wiring_order all_options true)))
  = [ filter_xacts (mk_item_predicate "account =~ /C/" keep_xact);
      filter_xacts (mk_item_predicate "account =~ /B/" keep_xact);
      filter_xacts (mk_item_predicate "account =~ /A/" keep_xact) ].
Proof.
  rewrite (predicate_filters_in_order all_options format_xacts true
             (set_expr_context amount_ all_options)
             (wire format_xacts (wiring_order all_options true)));
    reflexivity.
Defined.

(** X3.  In individual-transaction mode a returning call wires exactly
    one calculator, and it holds the amount expression of the returned
    report, whose context is the report; without that mode it wires
    none. *)
Theorem exactly_one_calculator r base ind r' chain :
  chain_xact_handlers r base ind = returned (r', chain) ->
  filter is_calc (in_front_of base chain)
  = (if ind then [calc_xacts (expr (HANDLER r' amount_))] else [])
  /\ (ind = true ->
      text (expr (HANDLER r' amount_)) = text (expr (HANDLER r amount_))
      /\ context (expr (HANDLER r' amount_)) = this_report).
Proof.
  intro H. rewrite (filter_in_front_of _ _ _ _ _ _ H), filter_wiring_order.
  apply chain_xact_handlers_returned in H as (_ & -> & _).
  replace (filter is_calc (common_stages r)) with (@nil stage)
    by (segments; by_flags).
  destruct ind; [| split; [reflexivity | discriminate]].
  replace (filter is_calc (before_calculator r)) with (@nil stage)
    by (segments; by_flags).
  replace (filter is_calc (before_interval r)) with (@nil stage)
    by (segments; by_flags).
  replace (filter is_calc (interval_grouping r)) with (@nil stage)
    by (segments; by_flags).
  split; [reflexivity | intros _; split; reflexivity].
Qed.

Lemma exactly_one_calculator_witness :
  filter is_calc
    (in_front_of format_xacts (wire format_xacts (wiring_order all_options true)))
  = [calc_xacts (mk_expr "amount" this_report)].
Proof.
  destruct (exactly_one_calculator all_options format_xacts true
              (set_expr_context amount_ all_options)
              (wire format_xacts (wiring_order all_options true)))
    as [C _]; [reflexivity |].
  rewrite C. reflexivity.
Defined.

(** X4.  The sort stages of a chain: in individual-transaction mode the
    date sort of the period option runs first, when there is a period,
    and the stage of the sort option after it, when there is a sort
    option; that stage is [sort_entries] when [sort_entries_] is
    present and [sort_xacts] otherwise, with the sort expression in
    both cases.  No other sort stage is wired. *)
Theorem sort_stages_wired r base ind r' chain :
  chain_xact_handlers r base ind = returned (r', chain) ->
  filter is_sort (in_front_of base chain)
  = if ind
    then when (HANDLED r period_) (sort_xacts "d")
         ++ when (HANDLED r sort_)
              (if HANDLED r sort_entries_
               then sort_entries (str (HANDLER r sort_))
               else sort_xacts (str (HANDLER r sort_)))
    else [].
Proof.
  intro H. rewrite (filter_in_front_of _ _ _ _ _ _ H), filter_wiring_order.
  replace (filter is_sort (common_stages r)) with (@nil stage)
    by (segments; by_flags).
  destruct ind; [| reflexivity].
  replace (filter is_sort (before_calculator r)) with (@nil stage)
    by (segments; by_flags).
  replace (filter is_sort (before_interval r))
    with (when (HANDLED r sort_) (sorter r))
    by (segments; by_flags).
  replace (filter is_sort (interval_grouping r))
    with (when (HANDLED r period_) (sort_xacts "d"))
    by (segments; by_flags).
  cbn [filter is_sort calculator app].
  rewrite app_nil_r, rev_app_distr, !rev_when. reflexivity.
Qed.

Lemma sort_stages_wired_witness :
  filter is_sort
    (in_front_of format_xacts (wire format_xacts (wiring_order all_options true)))
  = [sort_xacts "d"; sort_entries "-amount"].
Proof.
  rewrite (sort_stages_wired all_options format_xacts true
             (set_expr_context amount_ all_options)
             (wire format_xacts (wiring_order all_options true)));
    reflexivity.
Defined.

(** ** Options that are read under another option *)

Lemma wiring_order_set_code_as_payee o r ind :
  HANDLED r comm_as_payee = true ->
  wiring_order (set_option code_as_payee o r) ind = wiring_order r ind.
Proof.
  intro C. unfold wiring_order, common_stages.
  replace (payee_substitution (set_option code_as_payee o r))
    with (payee_substitution r)
    by (unfold payee_substitution;
        change (HANDLED (set_option code_as_payee o r) comm_as_payee)
          with (HANDLED r comm_as_payee); now rewrite C).
  reflexivity.
Qed.

Lemma wiring_order_set_related_all o r ind :
  HANDLED r related = false ->
  wiring_order (set_option related_all o r) ind = wiring_order r ind.
Proof.
  intro R. unfold wiring_order, common_stages, before_limit.
  replace (when (HANDLED (set_option related_all o r) related)
             (related_xacts (HANDLED (set_option related_all o r) related_all)))
    with (when (HANDLED r related) (related_xacts (HANDLED r related_all)))
    by (change (HANDLED (set_option related_all o r) related)
          with (HANDLED r related); now rewrite R).
  reflexivity.
Qed.

Lemma wiring_order_set_revaluation o1 o2 r ind :
  HANDLED r revalued = false ->
  wiring_order (set_option revalued_only o1 (set_option total_ o2 r)) ind
  = wiring_order r ind.
Proof.
  intro R.
  unfold wiring_order, individual_stages, after_calculator, before_interval.
  replace (when (HANDLED (set_option revalued_only o1 (set_option total_ o2 r))
                   revalued)
             (revaluation (set_option revalued_only o1 (set_option total_ o2 r))))
    with (when (HANDLED r revalued) (revaluation r))
    by (change (HANDLED (set_option revalued_only o1 (set_option total_ o2 r))
                  revalued)
          with (HANDLED r revalued); now rewrite R).
  reflexivity.
Qed.

(** X5.  The payee substitution: [comm_as_payee] has precedence over
    [code_as_payee].  A returning call wires at most one substitution
    stage, [set_comm_as_payee] when [comm_as_payee] is present and
    [set_code_as_payee] when only [code_as_payee] is; that stage is the
    head of the chain; and with [comm_as_payee] present the option
    [code_as_payee] has no effect on the chain. *)
Theorem payee_substitution_precedence r base ind :
  (HANDLED r comm_as_payee = true ->
   forall o,
     returned_chain (chain_xact_handlers (set_option code_as_payee o r)
                                         base ind)
     = returned_chain (chain_xact_handlers r base ind))
  /\ (forall r' chain,
        chain_xact_handlers r base ind = returned (r', chain) ->
        filter is_payee (in_front_of base chain)
        = (if HANDLED r comm_as_payee then [set_comm_as_payee]
           else if HANDLED r code_as_payee then [set_code_as_payee]
           else [])
        /\ firstn (List.length (filter is_payee (in_front_of base chain)))
             (stages chain)
           = filter is_payee (in_front_of base chain)).
Proof.
  split.
  - intros C o. rewrite !returned_chain_build.
    rewrite (wiring_order_set_code_as_payee o r ind C). reflexivity.
  - intros r' chain H.
    assert (F : filter is_payee (in_front_of base chain)
                = payee_substitution r).
    { rewrite (filter_in_front_of _ _ _ _ _ _ H), filter_wiring_order.
      replace (filter is_payee (common_stages r)) with (payee_substitution r)
        by (segments; by_flags).
      destruct ind.
      - replace (filter is_payee (before_calculator r)) with (@nil stage)
          by (segments; by_flags).
        replace (filter is_payee (before_interval r)) with (@nil stage)
          by (segments; by_flags).
        replace (filter is_payee (interval_grouping r)) with (@nil stage)
          by (segments; by_flags).
        cbn [filter is_payee calculator app]. apply rev_payee_substitution.
      - cbn [app]. apply rev_payee_substitution. }
    rewrite F. split; [reflexivity |].
    apply chain_xact_handlers_returned in H as (_ & _ & ->).
    rewrite stages_wire. unfold wiring_order.
    rewrite rev_app_distr, rev_common_stages, <- !app_assoc.
    rewrite firstn_app, Nat.sub_diag, firstn_all, firstn_O, app_nil_r.
    reflexivity.
Qed.

Lemma payee_substitution_precedence_witness :
  filter is_payee
    (in_front_of format_xacts (wire format_xacts (wiring_order all_options true)))
  = [set_comm_as_payee]
  /\ returned_chain
       (chain_xact_handlers (set_option code_as_payee absent all_options)
                            format_xacts true)
     = returned_chain (chain_xact_handlers all_options format_xacts true).
Proof.
  destruct (payee_substitution_precedence all_options format_xacts true)
    as [N P].
  split.
  - destruct (P (set_expr_context amount_ all_options)
                (wire format_xacts (wiring_order all_options true)))
      as [F _]; [reflexivity |].
    rewrite F. reflexivity.
  - apply N. reflexivity.
Defined.

(** X6.  [related_all] is read only under [related]: without the
    related option it has no effect on the chain, and with it the one
    related stage of the chain carries its presence as its flag. *)
Theorem related_all_under_related r base ind :
  (HANDLED r related = false ->
   forall o,
     returned_chain (chain_xact_handlers (set_option related_all o r)
                                         base ind)
     = returned_chain (chain_xact_handlers r base ind))
  /\ (forall r' chain,
        chain_xact_handlers r base ind = returned (r', chain) ->
        filter is_related (in_front_of base chain)
        = when (HANDLED r related) (related_xacts (HANDLED r related_all))).
Proof.
  split.
  - intros R o. rewrite !returned_chain_build.
    rewrite (wiring_order_set_related_all o r ind R). reflexivity.
  - intros r' chain H.
    rewrite (filter_in_front_of _ _ _ _ _ _ H), filter_wiring_order.
    replace (filter is_related (common_stages r))
      with (when (HANDLED r related) (related_xacts (HANDLED r related_all)))
      by (segments; by_flags).
    destruct ind.
    + replace (filter is_related (before_calculator r)) with (@nil stage)
        by (segments; by_flags).
      replace (filter is_related (before_interval r)) with (@nil stage)
        by (segments; by_flags).
      replace (filter is_related (interval_grouping r)) with (@nil stage)
        by (segments; by_flags).
      cbn [filter is_related calculator app]. apply rev_when.
    + cbn [app]. apply rev_when.
Qed.

Lemma related_all_under_related_witness :
  returned_chain
    (chain_xact_handlers (set_option related_all (present EmptyString)
                                     limit_sample)
                         format_xacts false)
  = returned_chain (chain_xact_handlers limit_sample format_xacts false)
  /\ filter is_related
       (in_front_of format_xacts
          (wire format_xacts (wiring_order all_options false)))
     = [related_xacts true].
Proof.
  split.
  - apply (related_all_under_related limit_sample format_xacts false).
    reflexivity.
  - rewrite (proj2 (related_all_under_related all_options format_xacts false)
               all_options
               (wire format_xacts (wiring_order all_options false)));
      reflexivity.
Defined.

(** X7.  [revalued_only] and the total expression are read only under
    [revalued]: without it neither has an effect on the chain, and with
    it, in individual-transaction mode, the one revaluation stage holds
    the total expression and the presence of [revalued_only]. *)
Theorem revaluation_under_revalued r base ind :
  (HANDLED r revalued = false ->
   forall o1 o2,
     returned_chain
       (chain_xact_handlers
          (set_option revalued_only o1 (set_option total_ o2 r)) base ind)
     = returned_chain (chain_xact_handlers r base ind))
  /\ (forall r' chain,
        chain_xact_handlers r base ind = returned (r', chain) ->
        filter is_revaluation (in_front_of base chain)
        = when (ind && HANDLED r revalued)
            (changed_value_xacts (expr (HANDLER r total_))
                                 (HANDLED r revalued_only))).
Proof.
  split.
  - intros R o1 o2. rewrite !returned_chain_build.
    rewrite (wiring_order_set_revaluation o1 o2 r ind R). reflexivity.
  - intros r' chain H.
    rewrite (filter_in_front_of _ _ _ _ _ _ H), filter_wiring_order.
    replace (filter is_revaluation (common_stages r)) with (@nil stage)
      by (segments; by_flags).
    destruct ind; [| reflexivity].
    replace (filter is_revaluation (before_calculator r)) with (@nil stage)
      by (segments; by_flags).
    replace (filter is_revaluation (before_interval r))
      with (when (HANDLED r revalued) (revaluation r))
      by (segments; by_flags).
    replace (filter is_revaluation (interval_grouping r)) with (@nil stage)
      by (segments; by_flags).
    cbn [filter is_revaluation calculator app andb].
    rewrite !app_nil_r. apply rev_when.
Qed.

Lemma revaluation_under_revalued_witness :
  returned_chain
    (chain_xact_handlers
       (set_option revalued_only (present EmptyString)
          (set_option total_ (present "total") amount_sample))
       format_xacts true)
  = returned_chain (chain_xact_handlers amount_sample format_xacts true)
  /\ filter is_revaluation
       (in_front_of format_xacts
          (wire format_xacts (wiring_order all_options true)))
     = [changed_value_xacts (mk_expr "total" null_scope) true].
Proof.
  split.
  - apply (revaluation_under_revalued amount_sample format_xacts true).
    reflexivity.
  - rewrite (proj2 (revaluation_under_revalued all_options format_xacts true)
               (set_expr_context amount_ all_options)
               (wire format_xacts (wiring_order all_options true)));
      reflexivity.
Defined.

(** ** The size of a chain *)

Lemma length_when b st : (List.length (when b st) <= 1)%nat.
Proof. destruct b; cbn; lia. Qed.

Lemma length_common_stages r : (List.length (common_stages r) <= 5)%nat.
Proof.
  unfold common_stages, before_limit. rewrite !length_app.
  pose proof (length_when (HANDLED r invert) invert_xacts).
  pose proof (length_when (HANDLED r related)
                (related_xacts (HANDLED r related_all))).
  pose proof (length_when (HANDLED r anon) anonymize_xacts).
  pose proof (length_when (HANDLED r limit_) (limit_filter r)).
  assert (List.length (payee_substitution r) <= 1)%nat
    by (unfold payee_substitution;
        destruct (HANDLED r comm_as_payee), (HANDLED r code_as_payee);
        cbn; lia).
  lia.
Qed.

Lemma length_individual_stages r :
  (1 <= List.length (individual_stages r) <= 11)%nat.
Proof.
  unfold individual_stages, after_calculator, before_calculator,
    before_interval.
  rewrite !length_app. cbn [List.length].
  pose proof (length_when (HANDLED r head_ || HANDLED r tail_) (truncation r)).
  pose proof (length_when (HANDLED r display_) (display_filter r)).
  pose proof (length_when (HANDLED r only_) (only_filter r)).
  pose proof (length_when (HANDLED r sort_) (sorter r)).
  pose proof (length_when (HANDLED r revalued) (revaluation r)).
  pose proof (length_when (HANDLED r collapse) (collapse_xacts (session r))).
  pose proof (length_when (HANDLED r subtotal) subtotal_xacts).
  assert (List.length (grouping r) <= 1)%nat
    by (unfold grouping; destruct (HANDLED r dow), (HANDLED r by_payee);
        cbn; lia).
  assert (List.length (interval_grouping r) <= 2)%nat
    by (unfold interval_grouping; destruct (HANDLED r period_); cbn; lia).
  lia.
Qed.

(** X8.  A returning call puts at most 5 stages in front of the base
    handler without individual-transaction mode, and between 1 and 16
    with it; the base handler and what lies behind it stay at the end
    of the chain. *)
Theorem chain_length_bounds r base ind r' chain :
  chain_xact_handlers r base ind = returned (r', chain) ->
  (if ind
   then 1 <= List.length (in_front_of base chain) <= 16
   else List.length (in_front_of base chain) <= 5)%nat
  /\ stages chain = in_front_of base chain ++ stages base.
Proof.
  intro H. apply chain_xact_handlers_returned in H as (_ & _ & ->).
  rewrite in_front_of_wire, stages_wire, length_rev. split; [| reflexivity].
  unfold wiring_order. rewrite length_app.
  pose proof (length_common_stages r).
  pose proof (length_individual_stages r).
  destruct ind; cbn [List.length]; lia.
Qed.

(** With every option present the bound of 16 stages is reached. *)
Lemma chain_length_bounds_witness :
  List.length
    (in_front_of format_xacts (wire format_xacts (wiring_order all_options true)))
  = 16%nat
  /\ (1 <= List.length
            (in_front_of format_xacts
               (wire format_xacts (wiring_order all_options true))) <= 16)%nat.
Proof.
  split; [reflexivity |].
  apply (chain_length_bounds all_options format_xacts true
           (set_expr_context amount_ all_options)
           (wire format_xacts (wiring_order all_options true))).
  reflexivity.
Defined.

(** ** Calling again *)

Lemma wiring_order_set_expr_context r ind :
  wiring_order (set_expr_context amount_ r) ind = wiring_order r ind.
Proof. reflexivity. Qed.

(** X9.  A call can be repeated on the report it returned: the second
    call returns as well, builds the same chain on the same base, and
    leaves every option of the report as the first call left it. *)
Theorem chain_xact_handlers_again r base ind r' chain :
  chain_xact_handlers r base ind = returned (r', chain) ->
  exists r'',
    chain_xact_handlers r' base ind = returned (r'', chain)
    /\ (forall n, HANDLER r'' n = HANDLER r' n)
    /\ session r'' = session r'
    /\ what_to_keep r'' = what_to_keep r'.
Proof.
  intro H. apply chain_xact_handlers_returned in H as (A & -> & ->).
  rewrite chain_xact_handlers_build. unfold build. destruct ind.
  - rewrite HANDLED_set_expr_context, (A eq_refl). cbn [andb negb].
    rewrite wiring_order_set_expr_context.
    eexists. split; [reflexivity |].
    split; [| split; reflexivity].
    intro n. destruct n; reflexivity.
  - cbn [andb]. eexists. repeat split.
Qed.

Lemma chain_xact_handlers_again_witness :
  exists r'',
    chain_xact_handlers (set_expr_context amount_ display_sample)
                        format_xacts true
    = returned (r'', display_sample_chain)
    /\ (forall n,
           HANDLER r'' n = HANDLER (set_expr_context amount_ display_sample) n)
    /\ session r'' = session (set_expr_context amount_ display_sample)
    /\ what_to_keep r''
       = what_to_keep (set_expr_context amount_ display_sample).
Proof.
  apply (chain_xact_handlers_again display_sample format_xacts true).
  reflexivity.
Defined.

(** ** What the call does not read *)

Lemma common_stages_agree r1 r2 :
  agree_on_common r1 r2 -> common_stages r1 = common_stages r2.
Proof.
  intros (I & R & RA & A & L & LS & K & C1 & C2).
  unfold common_stages, before_limit, payee_substitution, limit_filter.
  now rewrite I, R, RA, A, L, LS, K, C1, C2.
Qed.

(** X10.  Without individual-transaction mode the chain depends only on
    the options invert, related, related_all, anon, limit,
    comm_as_payee and code_as_payee and on the keep policy: two reports
    that agree on these give the same chain on the same base, whatever
    their other options and their sessions are. *)
Theorem common_mode_reads_common_options r1 r2 base :
  agree_on_common r1 r2 ->
  returned_chain (chain_xact_handlers r1 base false)
  = returned_chain (chain_xact_handlers r2 base false)
  /\ returned_chain (chain_xact_handlers r1 base false)
     = Some (wire base (common_stages r1)).
Proof.
  intro G. rewrite !returned_chain_build. unfold wiring_order.
  cbn [andb app]. now rewrite (common_stages_agree r1 r2 G).
Qed.

(** The sample with a display predicate and the amount expression and
    the report without options differ in the individual block only. *)
Lemma common_mode_reads_common_options_witness :
  returned_chain (chain_xact_handlers display_sample format_xacts false)
  = returned_chain (chain_xact_handlers no_options format_xacts false).
Proof.
  apply (common_mode_reads_common_options display_sample no_options
           format_xacts).
  repeat split.
Defined.

(** ** A chain on a chain *)

(** X11.  The base handler may itself be a chain the function built.
    The stages of the second call come in front of those of the first,
    in their own order, and what the second call's stages emit is what
    the first chain receives. *)
Theorem chain_on_chain {E : evaluator}
    r1 r2 base ind1 ind2 r1' chain1 r2' chain2 input :
  chain_xact_handlers r1 base ind1 = returned (r1', chain1) ->
  chain_xact_handlers r2 chain1 ind2 = returned (r2', chain2) ->
  in_front_of chain1 chain2 = rev (wiring_order r2 ind2)
  /\ in_front_of base chain2
     = in_front_of chain1 chain2 ++ in_front_of base chain1
  /\ deliver chain2 input
     = deliver chain1 (stream (in_front_of chain1 chain2) input).
Proof.
  intros H1 H2.
  apply chain_xact_handlers_returned in H1 as (_ & _ & ->).
  apply chain_xact_handlers_returned in H2 as (_ & _ & ->).
  rewrite !in_front_of_wire, deliver_wire.
  split; [reflexivity |]. split; [| reflexivity].
  rewrite <- wire_app, in_front_of_wire. apply rev_app_distr.
Qed.

(** Inversion wired twice. *)
Lemma chain_on_chain_witness :
  in_front_of format_xacts
    (new invert_xacts (new invert_xacts format_xacts))
  = [invert_xacts; invert_xacts].
Proof.
  destruct (@chain_on_chain sample_evaluator invert_sample invert_sample
              format_xacts false false
              invert_sample (new invert_xacts format_xacts)
              invert_sample
              (new invert_xacts (new invert_xacts format_xacts))
              sample_journal) as (F & G & _);
    [reflexivity | reflexivity |].
  rewrite G, F. reflexivity.
Defined.

(** ** Truncation *)

Lemma wiring_order_truncation r :
  HANDLED r head_ || HANDLED r tail_ = true ->
  wiring_order r true = truncation r :: wiring_order (without_truncation r) true.
Proof.
  intro T. unfold wiring_order, individual_stages, before_calculator.
  rewrite T. reflexivity.
Qed.

(** X12.  Truncation does not affect calculation.  With a head or a
    tail count in individual-transaction mode, one [truncate_entries]
    stage is wired first, with both counts as the report gives them,
    also the count of the option that is absent; it stands directly in
    front of the base handler, behind every other stage, so it receives
    exactly what the base handler would have received from the chain
    built without the counts. *)
Theorem truncation_does_not_affect_calculation {E : evaluator}
    r base r' chain :
  HANDLED r head_ || HANDLED r tail_ = true ->
  chain_xact_handlers r base true = returned (r', chain) ->
  exists r0 chain0,
    chain_xact_handlers (without_truncation r) base true
    = returned (r0, chain0)
    /\ chain
       = wire (new (truncate_entries (to_long (HANDLER r head_))
                                     (to_long (HANDLER r tail_))) base)
           (wiring_order (without_truncation r) true)
    /\ stages chain
       = in_front_of base chain0
         ++ truncate_entries (to_long (HANDLER r head_))
                             (to_long (HANDLER r tail_))
         :: stages base
    /\ forall input,
         deliver chain input
         = deliver base
             (stage_stream
                (truncate_entries (to_long (HANDLER r head_))
                                  (to_long (HANDLER r tail_)))
                (stream (in_front_of base chain0) input)).
Proof.
  intros T H. apply chain_xact_handlers_returned in H as (A & _ & ->).
  exists (set_expr_context amount_ (without_truncation r)),
         (wire base (wiring_order (without_truncation r) true)).
  split.
  - rewrite chain_xact_handlers_build. unfold build.
    change (HANDLED (without_truncation r) amount_) with (HANDLED r amount_).
    now rewrite (A eq_refl).
  - rewrite in_front_of_wire, (wiring_order_truncation r T).
    split; [reflexivity |]. split.
    + rewrite stages_wire. cbn [rev]. rewrite <- app_assoc. reflexivity.
    + intro input. rewrite deliver_wire. cbn [rev].
      rewrite stream_app. reflexivity.
Qed.

(** A head count alone: the stage is built with the head count 3 and
    with the value 0 of the absent tail option, behind the display
    filter. *)
Lemma truncation_does_not_affect_calculation_witness :
  stages (wire format_xacts (wiring_order head_sample true))
  = [ calc_xacts (mk_expr "amount" this_report);
      filter_xacts (mk_item_predicate "account =~ /A/" keep_xact);
      truncate_entries 3 0 ].
Proof.
  destruct (@truncation_does_not_affect_calculation sample_evaluator
              head_sample format_xacts
              (set_expr_context amount_ head_sample)
              (wire format_xacts (wiring_order head_sample true)))
    as (r0 & chain0 & H0 & _ & S & _); [reflexivity | reflexivity |].
  rewrite S.
  apply chain_xact_handlers_returned in H0 as (_ & _ & ->).
  reflexivity.
Defined.
